(** * stuber: the searcher over the stub index

    A shallow embedding of [searcher.go] (package [stuber]): the query
    resolver that sits on top of the two-level stub index, ranks the
    candidates of a (service, method) bucket and keeps the set of stubs
    that were ever returned to a real caller.

    The searcher is sequential here: every method is a function from the
    state before the call to the state after it and its results.  The
    reader/writer mutex [mu] only orders critical sections and is not part
    of the state. *)

From Stdlib Require Import Floats ZArith Lia.
From stdpp Require Import base option list strings gmap.

Set Default Proof Using "Type".

(** ** Identifiers

    [uuid.UUID] is a 16-byte array used as a map key and compared for
    equality only; it is read as the 128-bit number it spells. *)
Abbreviation uuid := N.

(** ** Errors *)

(** The sentinel errors of the package.  [ErrServiceNotFound],
    [ErrMethodNotFound] and [ErrStubNotFound] are declared in
    [searcher.go]; [ErrLeftNotFound] and [ErrRightNotFound] are the two
    sentinels of the index that [wrap] tests for.  [ErrOther] stands for any
    other [errors.New] value, [ErrWrapped] for an error that wraps one
    cause ([fmt.Errorf] with one [%w], an [Unwrap() error] method) and
    [ErrJoin] for an error that wraps several ([errors.Join],
    [fmt.Errorf] with several [%w], an [Unwrap() []error] method); these
    are the errors [errors.Is] walks through. *)
#[local] Set Warnings "-register-all".
Inductive error : Type :=
  | ErrServiceNotFound
  | ErrMethodNotFound
  | ErrStubNotFound
  | ErrLeftNotFound
  | ErrRightNotFound
  | ErrOther (msg : string)
  | ErrWrapped (msg : string) (cause : error)
  | ErrJoin (causes : list error).

#[global] Instance error_eq_dec : EqDecision error.
Proof.
  refine (fix go (a b : error) {struct a} : Decision (a = b) :=
    match a, b with
    | ErrServiceNotFound, ErrServiceNotFound => left _
    | ErrMethodNotFound, ErrMethodNotFound => left _
    | ErrStubNotFound, ErrStubNotFound => left _
    | ErrLeftNotFound, ErrLeftNotFound => left _
    | ErrRightNotFound, ErrRightNotFound => left _
    | ErrOther m, ErrOther m' => cast_if (decide (m = m'))
    | ErrWrapped m c, ErrWrapped m' c' =>
        cast_if_and (decide (m = m')) (go c c')
    | ErrJoin cs, ErrJoin cs' => cast_if (@list_eq_dec _ go cs cs')
    | _, _ => right _
    end); clear go; congruence.
Defined.

(** [errors.Is(err, target)]: [err] is [target], or the error it wraps
    is, or one of the errors it joins is, depth first.  (An [Is] method of
    an error type of its own would be asked too; the errors here are plain
    values and have none.) *)
Fixpoint errors_Is (err target : error) : bool :=
  if decide (err = target) then true
  else match err with
       | ErrWrapped _ cause => errors_Is cause target
       | ErrJoin causes => existsb (λ cause, errors_Is cause target) causes
       | _ => false
       end.

(** A Go result pair [(v, err)] of which exactly one side is set. *)
Inductive result (A : Type) : Type :=
  | Ok (a : A)
  | Err (e : error).
Arguments Ok {A} a.
Arguments Err {A} e.

(** [wrap]: the translation of the index's errors into the public ones. *)
Definition wrap (err : error) : error :=
  if errors_Is err ErrLeftNotFound then ErrServiceNotFound
  else if errors_Is err ErrRightNotFound then ErrMethodNotFound
  else err.

(** The internal error kinds of the index. *)
Definition internal_error (e : error) : bool :=
  errors_Is e ErrLeftNotFound || errors_Is e ErrRightNotFound.

Section Stuber.

(** The matching criteria and the response of a stub and the input of a
    query are opaque to the searcher: only [match] and [rankMatch] look
    inside them. *)
Context {Criteria Response Input : Type}.

(** Modelled from the spec: the [Stub] record (its declaration is not in
    [searcher.go]): an identifier, the service and method it is filed
    under, and opaque matching criteria plus response data. *)
Record Stub : Type := mkStub {
  ID : uuid;
  Service : string;
  Method : string;
  criteria : Criteria;
  response : Response;
}.

(** Modelled from the spec: the [Query] descriptor (its declaration is not
    in [searcher.go]): service, method, an optional explicit identifier
    ([query.ID], a pointer that may be nil), the structured input to
    compare and the internal flag read by [query.RequestInternal()]. *)
Record Query : Type := mkQuery {
  query_ID : option uuid;
  query_Service : string;
  query_Method : string;
  query_Input : Input;
  RequestInternal : bool;
}.

(** [Value] is the interface the index stores ([Key], [Left], [Right]).
    A value is a stub pointer or something else that implements the
    interface; the searcher's type assertions to a stub pointer tell
    them apart. *)
Inductive Value : Type :=
  | StubValue (s : Stub)
  | OtherValue (key : uuid) (left right : string).

Definition Key (v : Value) : uuid :=
  match v with StubValue s => ID s | OtherValue k _ _ => k end.
Definition Left (v : Value) : string :=
  match v with StubValue s => Service s | OtherValue _ l _ => l end.
Definition Right (v : Value) : string :=
  match v with StubValue s => Method s | OtherValue _ _ r => r end.

(** *** The index *)

(** Modelled from the spec: the [storage] struct (the index; its file is
    not part of the sources): a two-level associative structure keyed by
    service, then method, each leaf holding record identifiers, plus a
    flat identifier-to-record map for point lookup. *)
Record storage : Type := mkStorage {
  items : gmap string (gmap string (list uuid));
  itemsByID : gmap uuid Value;
}.

(** Modelled from the spec: [newStorage], the empty index. *)
Definition newStorage : storage :=
  {| items := ∅; itemsByID := ∅ |}.

(** Modelled from the spec: [storage.posByN], the existence probe of a
    (service, method) pair: a service-level not-found when the service
    bucket is absent, a method-level not-found when the service exists but
    the method does not, otherwise the position of the bucket (here the
    identifiers filed in it). *)
Definition posByN (st : storage) (left right : string) : result (list uuid) :=
  match items st !! left with
  | None => Err ErrLeftNotFound
  | Some methods =>
      match methods !! right with
      | None => Err ErrRightNotFound
      | Some bucket => Ok bucket
      end
  end.

(** Modelled from the spec: [storage.findByID], the point lookup. *)
Definition storage_findByID (st : storage) (id : uuid) : option Value :=
  itemsByID st !! id.

(** Modelled from the spec: [storage.findByIDs]; absent identifiers are
    silently skipped. *)
Definition findByIDs (st : storage) (ids : list uuid) : list Value :=
  omap (storage_findByID st) ids.

(** Modelled from the spec: [storage.findAll], with the two-level error of
    [posByN], otherwise a copy of the bucket's records. *)
Definition findAll (st : storage) (left right : string) : result (list Value) :=
  match posByN st left right with
  | Err e => Err e
  | Ok bucket => Ok (findByIDs st bucket)
  end.

(** Modelled from the spec: [storage.values], the full enumeration (in no
    particular order). *)
Definition values (st : storage) : list Value :=
  (map_to_list (itemsByID st)).*2.

(** Modelled from the spec: [storage.clear] removes everything. *)
Definition storage_clear (st : storage) : storage := newStorage.

(** Modelled from the spec: taking an identifier out of the bucket of
    (left, right); deleting the last identifier of a method bucket prunes
    that method, pruning the last method of a service prunes the
    service. *)
Definition unfile (left right : string) (id : uuid)
    (it : gmap string (gmap string (list uuid))) :
    gmap string (gmap string (list uuid)) :=
  match it !! left with
  | None => it
  | Some methods =>
      match methods !! right with
      | None => it
      | Some bucket =>
          let bucket' := filter (λ k, k ≠ id) bucket in
          let methods' :=
            match bucket' with
            | [] => delete right methods
            | _ => <[right := bucket']> methods
            end in
          if decide (methods' = ∅) then delete left it
          else <[left := methods']> it
      end
  end.

(** Modelled from the spec: filing an identifier under (left, right), at
    the end of the bucket. *)
Definition file (left right : string) (id : uuid)
    (it : gmap string (gmap string (list uuid))) :
    gmap string (gmap string (list uuid)) :=
  let methods := default ∅ (it !! left) in
  let bucket := default [] (methods !! right) in
  <[left := <[right := bucket ++ [id]]> methods]> it.

(** Modelled from the spec: insert-or-replace of one record.  An existing
    identifier is replaced in place; if its (service, method) changed it
    is removed from the old bucket and inserted into the new one. *)
Definition upsert1 (st : storage) (v : Value) : storage :=
  let it :=
    match itemsByID st !! Key v with
    | None => file (Left v) (Right v) (Key v) (items st)
    | Some old =>
        if decide (Left old = Left v ∧ Right old = Right v) then items st
        else file (Left v) (Right v) (Key v)
               (unfile (Left old) (Right old) (Key v) (items st))
    end in
  {| items := it; itemsByID := <[Key v := v]> (itemsByID st) |}.

(** Modelled from the spec: [storage.upsert] returns the affected
    identifiers in input order. *)
Definition storage_upsert (st : storage) (vs : list Value) : storage * list uuid :=
  (foldl upsert1 st vs, Key <$> vs).

(** Modelled from the spec: removal of one identifier; an absent one is
    ignored.  The flag tells whether a record was removed. *)
Definition del1 (st : storage) (id : uuid) : storage * bool :=
  match itemsByID st !! id with
  | None => (st, false)
  | Some old =>
      ({| items := unfile (Left old) (Right old) id (items st);
          itemsByID := delete id (itemsByID st) |}, true)
  end.

(** Modelled from the spec: [storage.del] returns the count actually
    removed. *)
Definition storage_del (st : storage) (ids : list uuid) : storage * nat :=
  foldl (λ acc id,
           let '(st', removed) := del1 acc.1 id in
           (st', if removed then S acc.2 else acc.2))
        (st, 0) ids.

(** *** The searcher *)

(** [searcher]: the usage-tracking set [stubUsed] (a Go map to the empty
    struct, that is a set) and the index it owns (the field [storage],
    named [storage_of] here since [storage] is the type). *)
Record searcher : Type := mkSearcher {
  stubUsed : gset uuid;
  storage_of : storage;
}.

Definition newSearcher : searcher :=
  {| stubUsed := ∅; storage_of := newStorage |}.

(** [Result]: two pointers to stubs, either of which may be nil. *)
Record Result : Type := mkResult {
  found : option Stub;
  similar : option Stub;
}.

(** [castToValue]: every stub pointer is a [Value]. *)
Definition castToValue (vs : list Stub) : list Value :=
  StubValue <$> vs.

(** [castToStub]: keeps the values whose type assertion to a stub pointer
    succeeds. *)
Definition castToStub (vs : list Value) : list Stub :=
  omap (λ v, match v with StubValue s => Some s | _ => None end) vs.

Definition upsert (s : searcher) (vs : list Stub) : searcher * list uuid :=
  let '(st, ids) := storage_upsert (storage_of s) (castToValue vs) in
  ({| stubUsed := stubUsed s; storage_of := st |}, ids).

Definition del (s : searcher) (ids : list uuid) : searcher * nat :=
  let '(st, n) := storage_del (storage_of s) ids in
  ({| stubUsed := stubUsed s; storage_of := st |}, n).

(** [findByID]: the stored value when it is a stub pointer, nil otherwise. *)
Definition findByID (s : searcher) (id : uuid) : option Stub :=
  match storage_findByID (storage_of s) id with
  | Some (StubValue v) => Some v
  | _ => None
  end.

Definition findBy (s : searcher) (service method : string) : result (list Stub) :=
  match findAll (storage_of s) service method with
  | Err err => Err (wrap err)
  | Ok all => Ok (castToStub all)
  end.

Definition clear (s : searcher) : searcher :=
  {| stubUsed := ∅; storage_of := storage_clear (storage_of s) |}.

Definition all (s : searcher) : list Stub :=
  castToStub (values (storage_of s)).

(** [used]: the stubs stored under the keys of [stubUsed]
    ([maps.Keys] lists them in no particular order). *)
Definition used (s : searcher) : list Stub :=
  castToStub (findByIDs (storage_of s) (elements (stubUsed s))).

(** [unused]: the stubs of [all()] whose [ID] is not in [stubUsed]. *)
Definition unused (s : searcher) : list Stub :=
  filter (λ stub, ID stub ∉ stubUsed s) (all s).

(** [mark]: skipped for an internal query, otherwise
    [s.stubUsed[id] = struct{}{}]. *)
Definition mark (s : searcher) (query : Query) (id : uuid) : searcher :=
  if RequestInternal query then s
  else {| stubUsed := {[id]} ∪ stubUsed s; storage_of := storage_of s |}.

(** [searchByID]; [id] is the identifier [query.ID] points to, which
    [find] has checked not to be nil before the call. *)
Definition searchByID (s : searcher) (service method : string)
    (query : Query) (id : uuid) : searcher * result Result :=
  match posByN (storage_of s) service method with
  | Err err => (s, Err (wrap err))
  | Ok _ =>
      match findByID s id with
      | Some found => (mark s query id, Ok {| found := Some found; similar := None |})
      | None => (s, Err ErrServiceNotFound)
      end
  end.

(** The matcher and the ranker are consumed as opaque capabilities. *)
Variable match_ : Query → Stub → bool.
Variable rankMatch : Query → Stub → float.

(** The four loop variables of [search]: both stubs start nil, both ranks
    start at the zero value of [float64]. *)
Record scan : Type := mkScan {
  scan_found : option Stub;
  foundRank : float;
  scan_similar : option Stub;
  similarRank : float;
}.

Definition scan_init : scan :=
  {| scan_found := None; foundRank := 0%float;
     scan_similar := None; similarRank := 0%float |}.

(** One iteration of the loop over the bucket. *)
Definition scan_step (query : Query) (acc : scan) (stub : Stub) : scan :=
  let current := rankMatch query stub in
  let acc1 :=
    if (similarRank acc <? current)%float
    then {| scan_found := scan_found acc; foundRank := foundRank acc;
            scan_similar := Some stub; similarRank := current |}
    else acc in
  if match_ query stub && (foundRank acc1 <? current)%float
  then {| scan_found := Some stub; foundRank := current;
          scan_similar := scan_similar acc1; similarRank := similarRank acc1 |}
  else acc1.

Definition search (s : searcher) (query : Query) : searcher * result Result :=
  match findBy s (query_Service query) (query_Method query) with
  | Err err => (s, Err (wrap err))
  | Ok stubs =>
      let acc := foldl (scan_step query) scan_init stubs in
      match scan_found acc with
      | Some found =>
          (mark s query (ID found), Ok {| found := Some found; similar := None |})
      | None =>
          match scan_similar acc with
          | None => (s, Err ErrStubNotFound)
          | Some similar => (s, Ok {| found := None; similar := Some similar |})
          end
      end
  end.

Definition find (s : searcher) (query : Query) : searcher * result Result :=
  match query_ID query with
  | Some id => searchByID s (query_Service query) (query_Method query) query id
  | None => search s query
  end.

(** A sequence of [find] calls, each on the state the previous one left. *)
Definition finds (s : searcher) (queries : list Query) : searcher :=
  foldl (λ s query, (find s query).1) s queries.

(** The states a searcher can be in when its methods run one after the
    other: the one [newSearcher] returns and those its methods leave
    behind. *)
Inductive reachable : searcher → Prop :=
  | reachable_new : reachable newSearcher
  | reachable_upsert s vs : reachable s → reachable (upsert s vs).1
  | reachable_del s ids : reachable s → reachable (del s ids).1
  | reachable_clear s : reachable s → reachable (clear s)
  | reachable_find s query : reachable s → reachable (find s query).1.

(** The flat map of the index files every record under its own key. *)
Definition keyed (st : storage) : Prop :=
  ∀ id v, itemsByID st !! id = Some v → Key v = id.

(** The running maximum that each pair of loop variables of [search]
    computes: the last candidate accepted by [p] whose rank was strictly
    above the rank kept so far. *)
Definition pick (p : Stub → bool) (rank : Stub → float)
    (acc : option Stub * float) (stubs : list Stub) : option Stub * float :=
  foldl (λ acc stub,
           if p stub && (acc.2 <? rank stub)%float
           then (Some stub, rank stub) else acc)
        acc stubs.

(** [x] is the first candidate of [stubs] accepted by [p] whose rank is the
    highest one above [floor]: every accepted candidate before it ranks
    strictly lower (or has no rank at all, a NaN), no accepted candidate
    after it ranks higher. *)
Definition first_best (p : Stub → bool) (rank : Stub → float) (floor : float)
    (stubs : list Stub) (x : Stub) : Prop :=
  ∃ pre post,
    stubs = pre ++ x :: post ∧ p x = true ∧ (floor <? rank x)%float = true ∧
    (∀ c, c ∈ pre → p c = true →
       (rank c <? rank x)%float = true ∨ (rank c =? rank c)%float = false) ∧
    (∀ c, c ∈ post → p c = true → (rank x <? rank c)%float = false).

(** The calls a client makes on the searcher, and a run of them one after
    the other. *)
Inductive call : Type :=
  | CallUpsert (vs : list Stub)
  | CallDel (ids : list uuid)
  | CallFind (query : Query)
  | CallClear.

Definition step (s : searcher) (c : call) : searcher :=
  match c with
  | CallUpsert vs => (upsert s vs).1
  | CallDel ids => (del s ids).1
  | CallFind query => (find s query).1
  | CallClear => clear s
  end.

Definition run (s : searcher) (calls : list call) : searcher :=
  foldl step s calls.

(** The type assertion of [castToStub] on one value. *)
Definition is_stub (v : Value) : bool :=
  match v with StubValue _ => true | OtherValue _ _ _ => false end.

End Stuber.

(** ** A small instance

    Stubs whose criteria say outright whether they match and how they rank,
    to run the searcher on. *)
Module Demo.

#[local] Set Warnings "-inexact-float".

Definition matches (query : @Query unit) (stub : @Stub (bool * float) unit) : bool :=
  (criteria stub).1.

Definition rank (query : @Query unit) (stub : @Stub (bool * float) unit) : float :=
  (criteria stub).2.

(** R1 scores 0.9 and is no strict match, R2 scores 0.4 and is one. *)
Definition R1 : @Stub (bool * float) unit :=
  mkStub 1%N "svc" "m" (false, 0.9%float) ().
Definition R2 : @Stub (bool * float) unit :=
  mkStub 2%N "svc" "m" (true, 0.4%float) ().

(** Two stubs that do not match: R3 ties with R1, R4 ranks lower. *)
Definition R3 : @Stub (bool * float) unit :=
  mkStub 3%N "svc" "m" (false, 0.9%float) ().
Definition R4 : @Stub (bool * float) unit :=
  mkStub 4%N "svc" "m" (false, 0.4%float) ().

(** Z1 is a strict match and Z2 is none, both with score 0. *)
Definition Z1 : @Stub (bool * float) unit :=
  mkStub 5%N "svc" "m" (true, 0%float) ().
Definition Z2 : @Stub (bool * float) unit :=
  mkStub 6%N "svc" "m" (false, 0%float) ().

(** A stub filed under another service and method. *)
Definition E1 : @Stub (bool * float) unit :=
  mkStub 7%N "other" "echo" (true, 1%float) ().

Definition query (id : option uuid) (internal : bool) : @Query unit :=
  mkQuery id "svc" "m" () internal.

Definition with_stubs (stubs : list (@Stub (bool * float) unit)) : searcher :=
  (upsert newSearcher stubs).1.

(** A strict match whose score is NaN and one that does not match with a
    negative score. *)
Definition N1 : @Stub (bool * float) unit :=
  mkStub 8%N "svc" "m" (true, nan) ().
Definition M1 : @Stub (bool * float) unit :=
  mkStub 9%N "svc" "m" (false, (-0.5)%float) ().

(** Two more strict matches: R5 ties with R2, R6 ranks higher. *)
Definition R5 : @Stub (bool * float) unit :=
  mkStub 10%N "svc" "m" (true, 0.4%float) ().
Definition R6 : @Stub (bool * float) unit :=
  mkStub 11%N "svc" "m" (true, 0.9%float) ().

End Demo.

(** * Facts *)

(** ** Comparisons of [float64]

    [<?] is IEEE 754 [<]: false as soon as one side is NaN.  The facts
    below are read off the specification of the comparison on
    [spec_float]. *)

Ltac sf_cases :=
  repeat match goal with
    | H : context [Pos.compare_cont Eq ?x ?y] |- _ =>
        change (Pos.compare_cont Eq x y) with (Pos.compare x y) in H
    | |- context [Pos.compare_cont Eq ?x ?y] =>
        change (Pos.compare_cont Eq x y) with (Pos.compare x y)
    end;
  repeat match goal with
    | |- context [Z.compare ?x ?y] => destruct (Z.compare_spec x y)
    | H : context [Z.compare ?x ?y] |- _ => destruct (Z.compare_spec x y)
    | |- context [Pos.compare ?x ?y] => destruct (Pos.compare_spec x y)
    | H : context [Pos.compare ?x ?y] |- _ => destruct (Pos.compare_spec x y)
    end;
  simpl in *; subst; try discriminate; try reflexivity; try lia; auto.

Lemma SFltb_trans a b c :
  SFltb a b = true → SFltb b c = true → SFltb a c = true.
Proof.
  unfold SFltb, SFcompare.
  destruct a as [[]|[]| |[] ma ea], b as [[]|[]| |[] mb eb],
    c as [[]|[]| |[] mc ec];
    try discriminate; try reflexivity; intros H1 H2; sf_cases.
Qed.

Lemma SFltb_below a b c :
  SFltb a b = false → SFltb a c = true →
  SFltb b c = true ∨ SFeqb b b = false.
Proof.
  unfold SFltb, SFeqb, SFcompare.
  destruct a as [[]|[]| |[] ma ea], b as [[]|[]| |[] mb eb],
    c as [[]|[]| |[] mc ec];
    try discriminate; auto; intros H1 H2; left; sf_cases.
Qed.

Lemma SFltb_asym a b : SFltb a b = true → SFltb b a = false.
Proof.
  unfold SFltb, SFcompare.
  destruct a as [[]|[]| |[] ma ea], b as [[]|[]| |[] mb eb];
    try discriminate; try reflexivity; intros H1; sf_cases.
Qed.

Lemma SFltb_eqb a b : SFeqb a b = true → SFltb b a = false ∧ SFltb a b = false.
Proof.
  unfold SFltb, SFeqb, SFcompare.
  destruct a as [[]|[]| |[] ma ea], b as [[]|[]| |[] mb eb];
    try discriminate; auto; intros H1; split; sf_cases.
Qed.

Lemma SFltb_not_nan a b : SFltb a b = true → SFeqb b b = true.
Proof.
  unfold SFltb, SFeqb, SFcompare.
  destruct a as [[]|[]| |[] ma ea], b as [[]|[]| |[] mb eb];
    try discriminate; auto; intros H1; sf_cases;
    rewrite ?Z.compare_refl, ?Pos.compare_cont_refl; auto.
Qed.

(** [<] is transitive. *)
Lemma ltb_trans (a b c : float) :
  (a <? b)%float = true → (b <? c)%float = true → (a <? c)%float = true.
Proof. rewrite !FloatAxioms.ltb_spec. apply SFltb_trans. Qed.

(** [<] is asymmetric. *)
Lemma ltb_asym (a b : float) :
  (a <? b)%float = true → (b <? a)%float = false.
Proof. rewrite !FloatAxioms.ltb_spec. apply SFltb_asym. Qed.

(** A score that is not above [a] is below whatever is above [a], unless
    it is NaN. *)
Lemma ltb_below (a b c : float) :
  (a <? b)%float = false → (a <? c)%float = true →
  (b <? c)%float = true ∨ (b =? b)%float = false.
Proof. rewrite !FloatAxioms.ltb_spec, FloatAxioms.eqb_spec. apply SFltb_below. Qed.

(** Equal scores are not ordered by [<]. *)
Lemma eqb_not_ltb (a b : float) :
  (a =? b)%float = true → (b <? a)%float = false ∧ (a <? b)%float = false.
Proof. rewrite !FloatAxioms.ltb_spec, FloatAxioms.eqb_spec. apply SFltb_eqb. Qed.

(** What lies above something is a number. *)
Lemma ltb_not_nan (a b : float) :
  (a <? b)%float = true → (b =? b)%float = true.
Proof. rewrite !FloatAxioms.ltb_spec, FloatAxioms.eqb_spec. apply SFltb_not_nan. Qed.

Lemma SFltb_nan a b : SFeqb b b = false → SFltb a b = false.
Proof.
  unfold SFltb, SFeqb, SFcompare.
  destruct a as [[]|[]| |[] ma ea], b as [[]|[]| |[] mb eb];
    try discriminate; auto; intros H1; exfalso; revert H1;
    rewrite ?Z.compare_refl, ?Pos.compare_cont_refl; discriminate.
Qed.

(** Nothing is below a NaN. *)
Lemma ltb_nan (a b : float) :
  (b =? b)%float = false → (a <? b)%float = false.
Proof. rewrite !FloatAxioms.ltb_spec, FloatAxioms.eqb_spec. apply SFltb_nan. Qed.

(** [<] is irreflexive. *)
Lemma ltb_irrefl (a : float) : (a <? a)%float = false.
Proof.
  destruct (a <? a)%float eqn:H; [|done].
  pose proof (ltb_asym _ _ H). congruence.
Qed.

(** ** The scan of a bucket *)

Section Scan.
Context {Criteria Response Input : Type}.
Variable match_ : @Query Input → @Stub Criteria Response → bool.
Variable rankMatch : @Query Input → @Stub Criteria Response → float.
Implicit Types (stub x c : @Stub Criteria Response).
Implicit Types (stubs pre post : list (@Stub Criteria Response)).
Implicit Types (query : @Query Input) (p : @Stub Criteria Response → bool).
Implicit Types (rank : @Stub Criteria Response → float).

Lemma pick_cons p rank acc c stubs :
  pick p rank acc (c :: stubs) =
  pick p rank
    (if p c && (acc.2 <? rank c)%float then (Some c, rank c) else acc) stubs.
Proof. reflexivity. Qed.

(** Either no accepted candidate ranks above the rank kept so far and the
    pair is left as it was, or the pair holds the first best candidate. *)
Lemma pick_spec p rank stubs : ∀ o r,
  (pick p rank (o, r) stubs = (o, r) ∧
   ∀ c, c ∈ stubs → p c = true → (r <? rank c)%float = false) ∨
  (∃ x, pick p rank (o, r) stubs = (Some x, rank x) ∧
        first_best p rank r stubs x).
Proof.
  induction stubs as [|c stubs IH]; intros o r.
  - left. split; [done|]. intros c Hc. by apply elem_of_nil in Hc.
  - rewrite pick_cons. cbn [snd].
    destruct (p c && (r <? rank c)%float) eqn:Hstep.
    + apply andb_true_iff in Hstep as [Hp Hlt]. right.
      destruct (IH (Some c) (rank c)) as [[-> Hall]|(x & -> & Hx)].
      * exists c. split; [done|]. exists [], stubs.
        split_and!; [done|done|done| |done].
        intros c' Hc'. by apply elem_of_nil in Hc'.
      * exists x. split; [done|].
        destruct Hx as (pre & post & -> & Hpx & Hcx & Hpre & Hpost).
        exists (c :: pre), post. split_and!; [done|done| | |done].
        -- by apply ltb_trans with (rank c).
        -- intros c' [->|Hc']%elem_of_cons Hpc'; [by left|by apply Hpre].
    + destruct (IH o r) as [[-> Hall]|(x & -> & Hx)].
      * left. split; [done|].
        intros c' [->|Hc']%elem_of_cons Hpc'; [|by apply Hall].
        rewrite Hpc' in Hstep. done.
      * right. exists x. split; [done|].
        destruct Hx as (pre & post & -> & Hpx & Hrx & Hpre & Hpost).
        exists (c :: pre), post. split_and!; [done|done|done| |done].
        intros c' [->|Hc']%elem_of_cons Hpc'; [|by apply Hpre].
        rewrite Hpc' in Hstep. by apply ltb_below with r.
Qed.

(** The two pairs of loop variables of [search] are two independent
    running maxima: [similar] over every candidate, [found] over the
    candidates that match. *)
Lemma scan_pick query stubs : ∀ acc,
  let res := foldl (scan_step match_ rankMatch query) acc stubs in
  (scan_similar res, similarRank res) =
    pick (λ _, true) (rankMatch query) (scan_similar acc, similarRank acc) stubs ∧
  (scan_found res, foundRank res) =
    pick (match_ query) (rankMatch query) (scan_found acc, foundRank acc) stubs.
Proof.
  induction stubs as [|c stubs IH]; intros acc; [done|].
  cbn zeta in *. cbn [foldl]. rewrite !pick_cons.
  destruct (IH (scan_step match_ rankMatch query acc c)) as [-> ->].
  unfold scan_step. cbn [snd andb].
  destruct (similarRank acc <? rankMatch query c)%float; cbn;
    destruct (match_ query c); cbn;
    destruct (foundRank acc <? rankMatch query c)%float; done.
Qed.

(** The first best candidate is a candidate, is accepted, and no accepted
    candidate ranks above it. *)
Lemma first_best_highest p rank floor stubs x :
  first_best p rank floor stubs x →
  x ∈ stubs ∧ p x = true ∧ (floor <? rank x)%float = true ∧
  ∀ c, c ∈ stubs → p c = true → (rank x <? rank c)%float = false.
Proof.
  intros (pre & post & -> & Hp & Hfloor & Hpre & Hpost).
  split_and!; [|done|done|].
  - apply elem_of_app. right. by left.
  - intros c [Hc|[->|Hc]%elem_of_cons]%elem_of_app Hpc.
    + destruct (Hpre c Hc Hpc) as [Hlt|Hnan];
        [by apply ltb_asym|by apply ltb_nan].
    + apply ltb_irrefl.
    + by apply Hpost.
Qed.

(** What [search] returns once the bucket is resolved: the first best
    strict match when a strict match ranks above 0, else the first best
    candidate when a candidate ranks above 0, else [ErrStubNotFound]. *)
Lemma search_cases (s : searcher) query stubs :
  findBy s (query_Service query) (query_Method query) = Ok stubs →
  (∃ x, first_best (match_ query) (rankMatch query) 0 stubs x ∧
        search match_ rankMatch s query =
          (mark s query (ID x), Ok {| found := Some x; similar := None |})) ∨
  ((∀ c, c ∈ stubs → match_ query c = true →
         (0 <? rankMatch query c)%float = false) ∧
   ((∃ x, first_best (λ _, true) (rankMatch query) 0 stubs x ∧
          search match_ rankMatch s query =
            (s, Ok {| found := None; similar := Some x |})) ∨
    ((∀ c, c ∈ stubs → (0 <? rankMatch query c)%float = false) ∧
     search match_ rankMatch s query = (s, Err ErrStubNotFound)))).
Proof.
  intros Hbucket. unfold search. rewrite Hbucket.
  destruct (scan_pick query stubs scan_init) as [Hsim Hfound].
  cbn zeta in *. cbn [scan_init scan_similar similarRank scan_found foundRank] in *.
  set (res := foldl (scan_step match_ rankMatch query) scan_init stubs) in *.
  destruct (pick_spec (match_ query) (rankMatch query) stubs None 0%float)
    as [[Hf Hnone]|(x & Hf & Hx)]; rewrite Hf in Hfound.
  - right. split; [done|].
    injection Hfound as -> _.
    destruct (pick_spec (λ _, true) (rankMatch query) stubs None 0%float)
      as [[Hs Hnone']|(x & Hs & Hx)]; rewrite Hs in Hsim.
    + right. injection Hsim as -> _. split; [|done].
      intros c Hc. by apply Hnone'.
    + left. injection Hsim as -> _. by exists x.
  - left. injection Hfound as -> _. by exists x.
Qed.

End Scan.

(** ** Resolution without an explicit identifier *)

Section Search.
Context {Criteria Response Input : Type}.
Variable match_ : @Query Input → @Stub Criteria Response → bool.
Variable rankMatch : @Query Input → @Stub Criteria Response → float.
Implicit Types (s : @searcher Criteria Response).
Implicit Types (stub x c : @Stub Criteria Response).
Implicit Types (stubs pre post : list (@Stub Criteria Response)).
Implicit Types (query : @Query Input).


(** C2: for a query without an explicit identifier whose bucket resolves:
    when the bucket holds candidates and all of them are non-matching with
    a score above 0, [find] returns no strict match and, as [similar], the
    candidate [x] such that every candidate before it ranks strictly lower
    and no candidate after it ranks higher (the highest score, the first of
    equals), and the state is unchanged; and when no candidate ranks above
    0, so that the scan keeps neither a strict match nor a closest
    candidate, [find] fails with [ErrStubNotFound]. *)
Theorem find_similar_only s query stubs :
  query_ID query = None →
  findBy s (query_Service query) (query_Method query) = Ok stubs →
  (stubs ≠ [] →
   (∀ c, c ∈ stubs →
      match_ query c = false ∧ (0 <? rankMatch query c)%float = true) →
   ∃ pre x post,
     stubs = pre ++ x :: post ∧
     (∀ c, c ∈ pre → (rankMatch query c <? rankMatch query x)%float = true) ∧
     (∀ c, c ∈ post → (rankMatch query x <? rankMatch query c)%float = false) ∧
     find match_ rankMatch s query =
       (s, Ok {| found := None; similar := Some x |})) ∧
  ((∀ c, c ∈ stubs → (0 <? rankMatch query c)%float = false) →
   find match_ rankMatch s query = (s, Err ErrStubNotFound)).
Proof.
  intros Hid Hbucket. unfold find. rewrite Hid.
  destruct (search_cases match_ rankMatch s query stubs Hbucket)
    as [(x & Hx & ->)|[Hnone [(x & Hx & ->)|[Hzero ->]]]].
  - apply first_best_highest in Hx as (Hin & Hmx & Hpos & _). split.
    + intros _ Hall. destruct (Hall x Hin) as [Hno _]. congruence.
    + intros Hall. rewrite (Hall x Hin) in Hpos. done.
  - split.
    + intros _ Hall.
      destruct Hx as (pre & post & -> & _ & _ & Hpre & Hpost).
      exists pre, x, post. split_and!; [done| | |done].
      * intros c Hc. destruct (Hpre c Hc eq_refl) as [Hlt|Hnan]; [done|].
        destruct (Hall c) as [_ Hpos].
        { apply elem_of_app. by left. }
        apply ltb_not_nan in Hpos. congruence.
      * intros c Hc. by apply Hpost.
    + intros Hall. apply first_best_highest in Hx as (Hin & _ & Hpos & _).
      rewrite (Hall x Hin) in Hpos. done.
  - split; [|done].
    intros Hne Hall. destruct stubs as [|c stubs]; [done|].
    destruct (Hall c) as [_ Hpos]; [by left|].
    rewrite Hzero in Hpos; [done|by left].
Qed.

(** C10: in the scan branch of [find], whatever [find] returns, a candidate
    whose score is exactly 0 is neither the closest candidate in [similar]
    nor the strict match in [found]; and when every candidate of the bucket
    has score 0 (in particular when the bucket is non-empty and all its
    candidates are non-matching with score 0), [find] fails with
    [ErrStubNotFound]. *)
Theorem zero_score_never_selected s query stubs :
  query_ID query = None →
  findBy s (query_Service query) (query_Method query) = Ok stubs →
  (∀ s' r x,
     find match_ rankMatch s query = (s', Ok r) →
     (rankMatch query x =? 0)%float = true →
     similar r ≠ Some x ∧ found r ≠ Some x) ∧
  ((∀ c, c ∈ stubs → (rankMatch query c =? 0)%float = true) →
   find match_ rankMatch s query = (s, Err ErrStubNotFound)).
Proof.
  intros Hid Hbucket. unfold find. rewrite Hid.
  destruct (search_cases match_ rankMatch s query stubs Hbucket)
    as [(y & Hy & ->)|[Hnone [(y & Hy & ->)|[Hzero ->]]]].
  - apply first_best_highest in Hy as (Hin & _ & Hpos & _). split.
    + intros s' r x [= _ <-] Hx. cbn. split; [done|].
      intros [= ->]. apply eqb_not_ltb in Hx as [Hx _]. congruence.
    + intros Hall. destruct (eqb_not_ltb _ _ (Hall y Hin)) as [Hy _]. congruence.
  - apply first_best_highest in Hy as (Hin & _ & Hpos & _). split.
    + intros s' r x [= _ <-] Hx. cbn. split; [|done].
      intros [= ->]. apply eqb_not_ltb in Hx as [Hx _]. congruence.
    + intros Hall. destruct (eqb_not_ltb _ _ (Hall y Hin)) as [Hy _]. congruence.
  - split; [|done]. intros s' r x [=].
Qed.

End Search.

(** ** The translation of errors *)

Lemma wrap_left (e : error) :
  errors_Is e ErrLeftNotFound = true → wrap e = ErrServiceNotFound.
Proof. intros H. unfold wrap. by rewrite H. Qed.

(** [wrap] tests for the service-level error first: an error that is
    both, such as a join of the two, is a service-level one. *)
Lemma wrap_right (e : error) :
  errors_Is e ErrLeftNotFound = false →
  errors_Is e ErrRightNotFound = true → wrap e = ErrMethodNotFound.
Proof. intros Hl Hr. unfold wrap. by rewrite Hl, Hr. Qed.

Lemma wrap_other (e : error) : internal_error e = false → wrap e = e.
Proof.
  unfold internal_error, wrap. intros [-> ->]%orb_false_iff. done.
Qed.

(** Whatever [wrap] returns is not an error of the index. *)
Lemma wrap_not_internal (e : error) : internal_error (wrap e) = false.
Proof.
  unfold wrap, internal_error.
  destruct (errors_Is e ErrLeftNotFound) eqn:Hl; [done|].
  destruct (errors_Is e ErrRightNotFound) eqn:Hr; [done|].
  by rewrite Hl, Hr.
Qed.

(** The errors of the index itself. *)
Lemma internal_error_sentinel (e : error) :
  e = ErrLeftNotFound ∨ e = ErrRightNotFound → internal_error e = true.
Proof. by intros [->| ->]. Qed.

(** ** The index *)

Section Index.
Context {Criteria Response : Type}.
Implicit Types (st : @storage Criteria Response).
Implicit Types (v : @Value Criteria Response).
Implicit Types (x : @Stub Criteria Response).

Lemma keyed_new : keyed (@newStorage Criteria Response).
Proof. intros id v. cbn. by rewrite lookup_empty. Qed.

Lemma keyed_upsert1 st v : keyed st → keyed (upsert1 st v).
Proof.
  intros Hk id w. cbn. rewrite lookup_insert.
  case_decide as Hid; [by intros [= <-]|]. apply Hk.
Qed.

Lemma keyed_upsert st vs : keyed st → keyed (storage_upsert st vs).1.
Proof.
  cbn. revert st. induction vs as [|v vs IH]; intros st Hk; [done|].
  cbn. by apply IH, keyed_upsert1.
Qed.

Lemma keyed_del1 st id : keyed st → keyed (del1 st id).1.
Proof.
  intros Hk. unfold del1. destruct (itemsByID st !! id) as [old|]; [|done].
  intros id' w. cbn. rewrite lookup_delete.
  case_decide; [done|]. apply Hk.
Qed.

Lemma keyed_del st ids : keyed st → keyed (storage_del st ids).1.
Proof.
  unfold storage_del. generalize 0. revert st.
  induction ids as [|id ids IH]; intros st n Hk; [done|].
  cbn [foldl fst snd]. pose proof (keyed_del1 st id Hk) as Hk'.
  destruct (del1 st id) as [st' removed]. by apply IH.
Qed.

(** The two-level error of the probe: an unknown service, then an unknown
    method of a known service. *)
Lemma posByN_cases st left right :
  (items st !! left = None ∧ posByN st left right = Err ErrLeftNotFound) ∨
  (∃ methods, items st !! left = Some methods ∧ methods !! right = None ∧
              posByN st left right = Err ErrRightNotFound) ∨
  (∃ methods bucket, items st !! left = Some methods ∧
                     methods !! right = Some bucket ∧
                     posByN st left right = Ok bucket).
Proof.
  unfold posByN. destruct (items st !! left) as [methods|]; [|by left].
  right. destruct (methods !! right) as [bucket|] eqn:Hr.
  - right. by exists methods, bucket.
  - left. by exists methods.
Qed.

Lemma elem_of_castToStub (vs : list (@Value Criteria Response)) x :
  x ∈ castToStub vs ↔ StubValue x ∈ vs.
Proof.
  unfold castToStub. rewrite list_elem_of_omap. split.
  - intros ([y|k l r] & Hin & [= ->]). done.
  - intros Hin. by exists (StubValue x).
Qed.

Lemma elem_of_findByIDs st ids v :
  v ∈ findByIDs st ids ↔ ∃ id, id ∈ ids ∧ itemsByID st !! id = Some v.
Proof. unfold findByIDs. by rewrite list_elem_of_omap. Qed.

Lemma elem_of_values st v :
  v ∈ values st ↔ ∃ id, itemsByID st !! id = Some v.
Proof.
  unfold values. rewrite list_elem_of_fmap. split.
  - intros ([id w] & -> & Hin%elem_of_map_to_list). by exists id.
  - intros (id & Hid). exists (id, v). by rewrite elem_of_map_to_list.
Qed.

(** A partial map that sends different elements to different images keeps
    a list free of duplicates. *)
Lemma NoDup_omap_inj {A B} (f : A → option B) (l : list A) :
  (∀ a b c, a ∈ l → b ∈ l → f a = Some c → f b = Some c → a = b) →
  NoDup l → NoDup (omap f l).
Proof.
  induction l as [|a l IH]; intros Hinj Hnd; [constructor|].
  apply NoDup_cons in Hnd as [Ha Hnd]. cbn.
  assert (Hl : NoDup (omap f l)).
  { apply IH; [|done]. intros b c d Hb Hc. apply Hinj; by right. }
  destruct (f a) as [c|] eqn:Hfa; [|done].
  apply NoDup_cons. split; [|done].
  intros (b & Hb & Hfb)%list_elem_of_omap.
  assert (a = b) as <-; [|done].
  apply (Hinj a b c); [by left|by right|done|done].
Qed.

Lemma NoDup_castToStub (vs : list (@Value Criteria Response)) :
  NoDup vs → NoDup (castToStub vs).
Proof.
  apply NoDup_omap_inj. intros [a|? ? ?] [b|? ? ?] c _ _; by intros [= ->] [= ->].
Qed.

(** In a keyed index no record is enumerated twice. *)
Lemma NoDup_values st : keyed st → NoDup (values st).
Proof.
  intros Hk. unfold values. apply NoDup_fmap_2_strong.
  - intros [k v] [k' v'] Hin%elem_of_map_to_list Hin'%elem_of_map_to_list.
    cbn. intros <-. by rewrite <- (Hk _ _ Hin), <- (Hk _ _ Hin').
  - apply NoDup_map_to_list.
Qed.

Lemma NoDup_findByIDs st ids : keyed st → NoDup ids → NoDup (findByIDs st ids).
Proof.
  intros Hk. apply NoDup_omap_inj. intros a b v _ _ Ha Hb.
  by rewrite <- (Hk _ _ Ha), <- (Hk _ _ Hb).
Qed.

End Index.

(** ** The searcher *)

Section Searcher.
Context {Criteria Response Input : Type}.
Variable match_ : @Query Input → @Stub Criteria Response → bool.
Variable rankMatch : @Query Input → @Stub Criteria Response → float.
Implicit Types (s : @searcher Criteria Response).
Implicit Types (stub x c : @Stub Criteria Response).
Implicit Types (stubs : list (@Stub Criteria Response)).
Implicit Types (query : @Query Input) (queries : list (@Query Input)).

(** *** What [find] does to the state *)

Lemma mark_storage s query id : storage_of (mark s query id) = storage_of s.
Proof. unfold mark. by destruct (RequestInternal query). Qed.

Lemma mark_internal s query id :
  RequestInternal query = true → mark s query id = s.
Proof. unfold mark. by intros ->. Qed.

Lemma mark_stubUsed s query id :
  stubUsed (mark s query id) =
  if RequestInternal query then stubUsed s else {[id]} ∪ stubUsed s.
Proof. unfold mark. by destruct (RequestInternal query). Qed.

(** [find] leaves the state as it was or marks one identifier. *)
Lemma find_state s query :
  (find match_ rankMatch s query).1 = s ∨
  ∃ id, (find match_ rankMatch s query).1 = mark s query id.
Proof.
  unfold find, searchByID, search.
  repeat case_match; cbn; eauto.
Qed.

Lemma find_storage s query :
  storage_of (find match_ rankMatch s query).1 = storage_of s.
Proof.
  destruct (find_state s query) as [->|[id ->]]; [done|apply mark_storage].
Qed.

Lemma find_internal s query :
  RequestInternal query = true → (find match_ rankMatch s query).1 = s.
Proof.
  intros Hint.
  destruct (find_state s query) as [->|[id ->]]; [done|by apply mark_internal].
Qed.

Lemma finds_internal s queries :
  (∀ query, query ∈ queries → RequestInternal query = true) →
  finds match_ rankMatch s queries = s.
Proof.
  revert s. induction queries as [|query queries IH]; intros s Hall; [done|].
  unfold finds in *. cbn [foldl]. rewrite find_internal.
  - apply IH. intros q Hq. apply Hall. by right.
  - apply Hall. by left.
Qed.

(** Every state the searcher can be in has its records filed under their
    own identifiers. *)
Lemma reachable_keyed s : reachable match_ rankMatch s → keyed (storage_of s).
Proof.
  induction 1 as [|s vs _ IH|s ids _ IH|s _ IH|s query _ IH].
  - apply keyed_new.
  - unfold upsert. pose proof (keyed_upsert (storage_of s) (castToValue vs) IH).
    by destruct (storage_upsert _ _).
  - unfold del. pose proof (keyed_del (storage_of s) ids IH).
    by destruct (storage_del _ _).
  - apply keyed_new.
  - by rewrite find_storage.
Qed.

(** *** Membership in [all], [used] and [unused] *)

Lemma elem_of_all s x :
  x ∈ all s ↔ ∃ id, itemsByID (storage_of s) !! id = Some (StubValue x).
Proof. unfold all. by rewrite elem_of_castToStub, elem_of_values. Qed.

Lemma elem_of_used s x :
  x ∈ used s ↔
  ∃ id, id ∈ stubUsed s ∧ itemsByID (storage_of s) !! id = Some (StubValue x).
Proof.
  unfold used. rewrite elem_of_castToStub, elem_of_findByIDs.
  by setoid_rewrite elem_of_elements.
Qed.

Lemma elem_of_unused s x :
  x ∈ unused s ↔ x ∈ all s ∧ ID x ∉ stubUsed s.
Proof. unfold unused. rewrite list_elem_of_filter. tauto. Qed.

Lemma elem_of_used_keyed s x :
  keyed (storage_of s) → x ∈ used s ↔ x ∈ all s ∧ ID x ∈ stubUsed s.
Proof.
  intros Hk. rewrite elem_of_used, elem_of_all. split.
  - intros (id & Hin & Hid). pose proof (Hk _ _ Hid) as Hkey. cbn in Hkey.
    subst id. eauto.
  - intros [(id & Hid) Hin]. pose proof (Hk _ _ Hid) as Hkey. cbn in Hkey.
    subst id. eauto.
Qed.

(** In a keyed index [used()] followed by [unused()] lists the records of
    [all()], each once. *)
Lemma used_unused_Permutation s :
  keyed (storage_of s) → used s ++ unused s ≡ₚ all s.
Proof.
  intros Hk. apply NoDup_Permutation.
  - apply NoDup_app. split_and!.
    + apply NoDup_castToStub, NoDup_findByIDs; [done|apply NoDup_elements].
    + intros x Hused Hunused. apply elem_of_unused in Hunused as [_ Hnot].
      apply (elem_of_used_keyed s x Hk) in Hused as [_ Hin]. done.
    + apply NoDup_filter, NoDup_castToStub, NoDup_values, Hk.
  - apply NoDup_castToStub, NoDup_values, Hk.
  - intros x. rewrite elem_of_app, elem_of_unused, (elem_of_used_keyed s x Hk).
    destruct (decide (ID x ∈ stubUsed s)); tauto.
Qed.

Lemma elem_of_findBy s service method stubs x :
  findBy s service method = Ok stubs → x ∈ stubs → x ∈ all s.
Proof.
  unfold findBy, findAll.
  destruct (posByN (storage_of s) service method) as [bucket|e]; [|done].
  intros [= <-]. rewrite elem_of_castToStub, elem_of_findByIDs, elem_of_all.
  intros (id & _ & Hid). eauto.
Qed.

Lemma findByID_Some s id x :
  findByID s id = Some x ↔
  itemsByID (storage_of s) !! id = Some (StubValue x).
Proof.
  unfold findByID, storage_findByID.
  destruct (itemsByID (storage_of s) !! id) as [[y|k l r]|]; split;
    intros [=]; by subst.
Qed.

(** A strict match returned by [find] is a record of the index, and the
    identifier marked is its own. *)
Lemma find_found s query s' r x :
  keyed (storage_of s) →
  find match_ rankMatch s query = (s', Ok r) → found r = Some x →
  x ∈ all s ∧ s' = mark s query (ID x).
Proof.
  intros Hk. unfold find. destruct (query_ID query) as [id|] eqn:Hid.
  - unfold searchByID.
    destruct (posByN _ _ _) as [bucket|e]; [|done].
    destruct (findByID s id) as [y|] eqn:Hy; [|done].
    intros [= <- <-] [= ->]. apply findByID_Some in Hy.
    pose proof (Hk _ _ Hy) as Hkey. cbn in Hkey. subst id.
    split; [|done]. apply elem_of_all. eauto.
  - destruct (findBy s (query_Service query) (query_Method query))
      as [stubs|e] eqn:Hbucket.
    + destruct (search_cases match_ rankMatch s query stubs Hbucket)
        as [(y & Hy & ->)|[_ [(y & Hy & ->)|[_ ->]]]].
      * intros [= <- <-] [= ->]. split; [|done].
        apply first_best_highest in Hy as [Hin _].
        by apply (elem_of_findBy _ _ _ _ _ Hbucket).
      * by intros [= <- <-] [=].
      * done.
    + unfold search. rewrite Hbucket. done.
Qed.

End Searcher.

(** ** Resolution by identifier, errors and usage tracking *)

Section Resolver.
Context {Criteria Response Input : Type}.
Variable match_ : @Query Input → @Stub Criteria Response → bool.
Variable rankMatch : @Query Input → @Stub Criteria Response → float.
Implicit Types (s : @searcher Criteria Response).
Implicit Types (stub x c : @Stub Criteria Response).
Implicit Types (stubs : list (@Stub Criteria Response)).
Implicit Types (query : @Query Input) (queries : list (@Query Input)).

(** The not-found distinction: an unknown service gives
    [ErrServiceNotFound] and an unknown method of a known service gives
    [ErrMethodNotFound], with or without an explicit identifier. *)
Lemma find_unknown_pair s query :
  (items (storage_of s) !! query_Service query = None →
   find match_ rankMatch s query = (s, Err ErrServiceNotFound)) ∧
  (∀ methods,
     items (storage_of s) !! query_Service query = Some methods →
     methods !! query_Method query = None →
     find match_ rankMatch s query = (s, Err ErrMethodNotFound)).
Proof.
  unfold find, searchByID, search, findBy, findAll, posByN. split.
  - intros ->. by destruct (query_ID query).
  - intros methods -> ->. by destruct (query_ID query).
Qed.

(** The branch of [find] for an explicit identifier, once the (service,
    method) pair has been probed successfully. *)
Lemma find_identifier_present s query id bucket x :
  query_ID query = Some id →
  posByN (storage_of s) (query_Service query) (query_Method query) = Ok bucket →
  findByID s id = Some x →
  find match_ rankMatch s query =
    (mark s query id, Ok {| found := Some x; similar := None |}).
Proof.
  intros Hid Hpos Hx. unfold find, searchByID. by rewrite Hid, Hpos, Hx.
Qed.

Lemma find_identifier_absent s query id bucket :
  query_ID query = Some id →
  posByN (storage_of s) (query_Service query) (query_Method query) = Ok bucket →
  findByID s id = None →
  find match_ rankMatch s query = (s, Err ErrServiceNotFound).
Proof.
  intros Hid Hpos Hx. unfold find, searchByID. by rewrite Hid, Hpos, Hx.
Qed.

(** C3: for a query carrying an explicit identifier whose (service, method)
    pair exists in the index: if the identifier is not present in the
    store, [find] fails with [ErrServiceNotFound] and changes nothing; if
    it is present, [find] returns the record as the strict match and the
    usage set gains the identifier unless the query is internal. *)
Theorem find_by_identifier s query id bucket :
  query_ID query = Some id →
  posByN (storage_of s) (query_Service query) (query_Method query) = Ok bucket →
  (findByID s id = None →
   find match_ rankMatch s query = (s, Err ErrServiceNotFound)) ∧
  (∀ x, findByID s id = Some x →
     find match_ rankMatch s query =
       (mark s query id, Ok {| found := Some x; similar := None |}) ∧
     stubUsed (find match_ rankMatch s query).1 =
       if RequestInternal query then stubUsed s else {[id]} ∪ stubUsed s).
Proof.
  intros Hid Hpos. split.
  - by apply find_identifier_absent with bucket.
  - intros x Hx.
    rewrite (find_identifier_present s query id bucket x Hid Hpos Hx).
    split; [done|]. apply mark_stubUsed.
Qed.

(** C9: for a query carrying an explicit identifier whose (service,
    method) pair exists in the index, the record stored under that
    identifier is returned as the strict match and marked used (unless the
    query is internal) without any condition on its own service and
    method: the statement holds for every such record, those filed under
    another (service, method) pair than the one queried included. *)
Theorem find_by_identifier_ignores_coordinates s query id bucket x :
  query_ID query = Some id →
  posByN (storage_of s) (query_Service query) (query_Method query) = Ok bucket →
  itemsByID (storage_of s) !! id = Some (StubValue x) →
  find match_ rankMatch s query =
    (mark s query id, Ok {| found := Some x; similar := None |}) ∧
  (RequestInternal query = false →
   id ∈ stubUsed (find match_ rankMatch s query).1).
Proof.
  intros Hid Hpos Hx. apply findByID_Some in Hx.
  rewrite (find_identifier_present s query id bucket x Hid Hpos Hx).
  split; [done|]. intros Hext. cbn [fst]. rewrite mark_stubUsed, Hext.
  apply elem_of_union. left. by apply elem_of_singleton.
Qed.

(** C4: [wrap] maps the service-bucket-absent error of the index to
    [ErrServiceNotFound], its method-bucket-absent error to
    [ErrMethodNotFound], and returns any other error unchanged; what it
    returns is never an error of the index, and neither is an error
    returned by [findBy] or [find].  For errors that wrap or join others,
    [errors.Is] decides: what is a service-level error becomes
    [ErrServiceNotFound], and what is a method-level one and no
    service-level one becomes [ErrMethodNotFound] (the service-level test
    comes first). *)
Theorem wrap_translates_index_errors (e : error) :
  wrap ErrLeftNotFound = ErrServiceNotFound ∧
  wrap ErrRightNotFound = ErrMethodNotFound ∧
  (errors_Is e ErrLeftNotFound = true → wrap e = ErrServiceNotFound) ∧
  (errors_Is e ErrLeftNotFound = false →
   errors_Is e ErrRightNotFound = true → wrap e = ErrMethodNotFound) ∧
  (internal_error e = false → wrap e = e) ∧
  internal_error (wrap e) = false ∧
  (∀ s service method,
     findBy s service method = Err e → internal_error e = false) ∧
  (∀ s query s',
     find match_ rankMatch s query = (s', Err e) → internal_error e = false).
Proof.
  split_and!; [done|done|apply wrap_left|apply wrap_right|apply wrap_other
              |apply wrap_not_internal| |].
  - intros s service method. unfold findBy.
    destruct (findAll _ _ _) as [vs|err]; [done|].
    intros [= <-]. apply wrap_not_internal.
  - intros s query s'. unfold find, searchByID, search, findBy.
    repeat case_match; intros [= _ <-]; try done; apply wrap_not_internal.
Qed.

(** C5: in every state the searcher can be in, a record that [find]
    returns as the strict match of a non-internal query (through either
    branch) has its identifier in the usage set afterwards: it is in
    [used()] and not in [unused()]. *)
Theorem strict_match_is_used s query s' r x :
  reachable match_ rankMatch s →
  RequestInternal query = false →
  find match_ rankMatch s query = (s', Ok r) →
  found r = Some x →
  ID x ∈ stubUsed s' ∧ x ∈ used s' ∧ x ∉ unused s'.
Proof.
  intros Hreach Hext Hfind Hfound.
  pose proof (reachable_keyed match_ rankMatch s Hreach) as Hk.
  destruct (find_found match_ rankMatch s query s' r x Hk Hfind Hfound)
    as [Hall ->].
  assert (Hin : ID x ∈ stubUsed (mark s query (ID x))).
  { rewrite mark_stubUsed, Hext. set_solver. }
  assert (Hall' : x ∈ all (mark s query (ID x))).
  { revert Hall. rewrite !elem_of_all. by rewrite mark_storage. }
  split_and!; [done| |].
  - apply elem_of_used_keyed; [by rewrite mark_storage|done].
  - rewrite elem_of_unused. tauto.
Qed.

(** C6: a sequence of [find] calls whose queries are all internal leaves
    the searcher as it was: the usage set is unchanged, and so are
    [used()] and [unused()]. *)
Theorem internal_finds_leave_usage s queries :
  (∀ query, query ∈ queries → RequestInternal query = true) →
  stubUsed (finds match_ rankMatch s queries) = stubUsed s ∧
  used (finds match_ rankMatch s queries) = used s ∧
  unused (finds match_ rankMatch s queries) = unused s.
Proof. intros Hall. by rewrite finds_internal. Qed.

(** C7: in every state the searcher can be in, [used()] and [unused()]
    partition [all()]: a record is in [all()] exactly when it is in one of
    them, no record is in both, and a record of [all()] is in [used()]
    when its identifier is in the usage set and in [unused()] when it is
    not; as lists, [used()] followed by [unused()] is [all()] up to the
    order, so that no record is listed twice. *)
Theorem used_unused_partition s :
  reachable match_ rankMatch s →
  (∀ x, x ∈ all s ↔ x ∈ used s ∨ x ∈ unused s) ∧
  (∀ x, ¬ (x ∈ used s ∧ x ∈ unused s)) ∧
  (∀ x, x ∈ used s ↔ x ∈ all s ∧ ID x ∈ stubUsed s) ∧
  (∀ x, x ∈ unused s ↔ x ∈ all s ∧ ID x ∉ stubUsed s) ∧
  used s ++ unused s ≡ₚ all s.
Proof.
  intros Hk%reachable_keyed.
  split_and!; [..|by apply used_unused_Permutation]; intros x;
    rewrite ?elem_of_unused, ?(elem_of_used_keyed s x Hk); [|tauto..].
  destruct (decide (ID x ∈ stubUsed s)); tauto.
Qed.

End Resolver.

(** * The searcher on concrete stubs *)

Module Runs.
Import Demo.

(** Fallback precedence: R1 (score 0.9, no strict match) and R2 (score 0.4,
    strict match) under the same (service, method): R2 is returned as the
    strict match and marked used. *)
Example run_fallback_precedence :
  find matches rank (with_stubs [R1; R2]) (query None false) =
    (mark (with_stubs [R1; R2]) (query None false) 2%N,
     Ok {| found := Some R2; similar := None |}).
Proof. vm_compute. reflexivity. Qed.

(** Similar-only path: the highest score wins, the first of equals. *)
Example run_similar_only :
  find matches rank (with_stubs [R4; R1; R3]) (query None false) =
    (with_stubs [R4; R1; R3], Ok {| found := None; similar := Some R1 |}).
Proof. vm_compute. reflexivity. Qed.

(** The three not-found kinds. *)
Example run_not_found :
  (find matches rank (with_stubs [R1]) (mkQuery None "nope" "m" () false)).2
    = Err ErrServiceNotFound ∧
  (find matches rank (with_stubs [R1]) (mkQuery None "svc" "nope" () false)).2
    = Err ErrMethodNotFound ∧
  (find matches rank (with_stubs [Z2]) (query None false)).2
    = Err ErrStubNotFound ∧
  (find matches rank (with_stubs [R1]) (mkQuery (Some 1%N) "nope" "m" () false)).2
    = Err ErrServiceNotFound ∧
  (find matches rank (with_stubs [R1]) (mkQuery (Some 1%N) "svc" "nope" () false)).2
    = Err ErrMethodNotFound.
Proof. vm_compute. done. Qed.

(** Upserting a stub again under other coordinates moves it; deleting the
    last stub of a service prunes the service. *)
Example run_upsert_del :
  (upsert (with_stubs [R1; R2]) [mkStub 1%N "other" "echo" (true, 1%float) ()]).2
    = [1%N] ∧
  findBy (upsert (with_stubs [R1; R2])
            [mkStub 1%N "other" "echo" (true, 1%float) ()]).1 "svc" "m"
    = Ok [R2] ∧
  (del (with_stubs [R1; R2]) [1%N; 9%N; 2%N]).2 = 2 ∧
  findBy (del (with_stubs [R1; R2]) [1%N; 9%N; 2%N]).1 "svc" "m"
    = Err ErrServiceNotFound.
Proof. vm_compute. done. Qed.

End Runs.

(** * The statements above on concrete stubs *)

Section Witnesses.
Import Demo.

Ltac run := vm_compute; reflexivity.

Ltac each_stub :=
  let c := fresh "c" in
  let Hc := fresh "Hc" in
  intros c Hc;
  repeat (apply elem_of_cons in Hc as [->|Hc]);
  [try split; run ..|by apply elem_of_nil in Hc].



Lemma find_similar_only_witness :
  (∃ pre x post,
     [R4; R1; R3] = pre ++ x :: post ∧
     (∀ c, c ∈ pre →
        (rank (query None false) c <? rank (query None false) x)%float = true) ∧
     (∀ c, c ∈ post →
        (rank (query None false) x <? rank (query None false) c)%float = false) ∧
     find matches rank (with_stubs [R4; R1; R3]) (query None false) =
       (with_stubs [R4; R1; R3], Ok {| found := None; similar := Some x |})) ∧
  find matches rank (with_stubs [Z2]) (query None false) =
    (with_stubs [Z2], Err ErrStubNotFound).
Proof.
  split.
  - apply (find_similar_only matches rank
             (with_stubs [R4; R1; R3]) (query None false) [R4; R1; R3]);
      [run|run|done|each_stub].
  - apply (find_similar_only matches rank
             (with_stubs [Z2]) (query None false) [Z2]);
      [run|run|each_stub].
Defined.

Lemma zero_score_never_selected_witness :
  (similar {| found := None; similar := Some R4 |} ≠ Some Z2 ∧
   found {| found := None; similar := Some R4 |} ≠ Some Z2) ∧
  find matches rank (with_stubs [Z2; Z1]) (query None false) =
    (with_stubs [Z2; Z1], Err ErrStubNotFound).
Proof.
  split.
  - apply (zero_score_never_selected matches rank
             (with_stubs [Z2; R4; Z1]) (query None false) [Z2; R4; Z1]
             eq_refl) with (s' := with_stubs [Z2; R4; Z1]);
      run.
  - apply (zero_score_never_selected matches rank
             (with_stubs [Z2; Z1]) (query None false) [Z2; Z1]);
      [run|run|each_stub].
Defined.

Lemma find_by_identifier_witness :
  find matches rank (with_stubs [R1; R2]) (query (Some 9%N) false) =
    (with_stubs [R1; R2], Err ErrServiceNotFound) ∧
  find matches rank (with_stubs [R1; R2]) (query (Some 2%N) false) =
    (mark (with_stubs [R1; R2]) (query (Some 2%N) false) 2%N,
     Ok {| found := Some R2; similar := None |}) ∧
  stubUsed (find matches rank (with_stubs [R1; R2]) (query (Some 2%N) false)).1 =
    {[2%N]} ∪ stubUsed (with_stubs [R1; R2]) ∧
  stubUsed (find matches rank (with_stubs [R1; R2]) (query (Some 2%N) true)).1 =
    stubUsed (with_stubs [R1; R2]).
Proof.
  split_and!.
  - apply (find_by_identifier matches rank
             (with_stubs [R1; R2]) (query (Some 9%N) false) 9%N [1%N; 2%N]);
      run.
  - apply (find_by_identifier matches rank
             (with_stubs [R1; R2]) (query (Some 2%N) false) 2%N [1%N; 2%N]);
      run.
  - apply (find_by_identifier matches rank
             (with_stubs [R1; R2]) (query (Some 2%N) false) 2%N [1%N; 2%N]
             eq_refl eq_refl) with (x := R2).
    run.
  - apply (find_by_identifier matches rank
             (with_stubs [R1; R2]) (query (Some 2%N) true) 2%N [1%N; 2%N]
             eq_refl eq_refl) with (x := R2).
    run.
Defined.

(** E1 is filed under ("other", "echo") and found by a query for
    ("svc", "m"). *)
Lemma find_by_identifier_ignores_coordinates_witness :
  Service E1 ≠ query_Service (query (Some 7%N) false) ∧
  Method E1 ≠ query_Method (query (Some 7%N) false) ∧
  findBy (with_stubs [R1; E1]) "svc" "m" = Ok [R1] ∧
  find matches rank (with_stubs [R1; E1]) (query (Some 7%N) false) =
    (mark (with_stubs [R1; E1]) (query (Some 7%N) false) 7%N,
     Ok {| found := Some E1; similar := None |}) ∧
  7%N ∈ stubUsed (find matches rank (with_stubs [R1; E1]) (query (Some 7%N) false)).1.
Proof.
  split_and!; [done|done|run|..].
  - apply (find_by_identifier_ignores_coordinates matches rank
             (with_stubs [R1; E1]) (query (Some 7%N) false) 7%N [1%N] E1);
      run.
  - apply (find_by_identifier_ignores_coordinates matches rank
             (with_stubs [R1; E1]) (query (Some 7%N) false) 7%N [1%N] E1);
      run.
Defined.

Lemma wrap_translates_index_errors_witness :
  wrap (ErrWrapped "findAll" ErrLeftNotFound) = ErrServiceNotFound ∧
  wrap (ErrWrapped "findAll" ErrRightNotFound) = ErrMethodNotFound ∧
  wrap (ErrJoin [ErrOther "boom"; ErrRightNotFound]) = ErrMethodNotFound ∧
  wrap (ErrJoin [ErrRightNotFound; ErrLeftNotFound]) = ErrServiceNotFound ∧
  wrap (ErrOther "boom") = ErrOther "boom" ∧
  internal_error ErrServiceNotFound = false ∧
  internal_error ErrMethodNotFound = false.
Proof.
  split_and!.
  - by apply (wrap_translates_index_errors matches rank
                (ErrWrapped "findAll" ErrLeftNotFound)).
  - by apply (wrap_translates_index_errors matches rank
                (ErrWrapped "findAll" ErrRightNotFound)).
  - by apply (wrap_translates_index_errors matches rank
                (ErrJoin [ErrOther "boom"; ErrRightNotFound])).
  - by apply (wrap_translates_index_errors matches rank
                (ErrJoin [ErrRightNotFound; ErrLeftNotFound])).
  - by apply (wrap_translates_index_errors matches rank (ErrOther "boom")).
  - apply (wrap_translates_index_errors matches rank ErrServiceNotFound)
      with (s := with_stubs [R1]) (service := "nope") (method := "m").
    run.
  - apply (wrap_translates_index_errors matches rank ErrMethodNotFound)
      with (s := with_stubs [R1]) (query := mkQuery (Some 1%N) "svc" "nope" () false)
           (s' := with_stubs [R1]).
    run.
Defined.

Lemma strict_match_is_used_witness :
  (ID R2 ∈ stubUsed (mark (with_stubs [R1; R2]) (query None false) 2%N) ∧
   R2 ∈ used (mark (with_stubs [R1; R2]) (query None false) 2%N) ∧
   R2 ∉ unused (mark (with_stubs [R1; R2]) (query None false) 2%N)) ∧
  (ID R1 ∈ stubUsed (mark (with_stubs [R1; R2]) (query (Some 1%N) false) 1%N) ∧
   R1 ∈ used (mark (with_stubs [R1; R2]) (query (Some 1%N) false) 1%N) ∧
   R1 ∉ unused (mark (with_stubs [R1; R2]) (query (Some 1%N) false) 1%N)).
Proof.
  split.
  - apply (strict_match_is_used matches rank
             (with_stubs [R1; R2]) (query None false) _
             {| found := Some R2; similar := None |} R2);
      [apply reachable_upsert, reachable_new|run..].
  - apply (strict_match_is_used matches rank
             (with_stubs [R1; R2]) (query (Some 1%N) false) _
             {| found := Some R1; similar := None |} R1);
      [apply reachable_upsert, reachable_new|run..].
Defined.

Lemma internal_finds_leave_usage_witness :
  stubUsed (finds matches rank
              (mark (with_stubs [R1; R2]) (query None false) 2%N)
              [query None true; query (Some 1%N) true]) = {[2%N]} ∧
  used (finds matches rank
          (mark (with_stubs [R1; R2]) (query None false) 2%N)
          [query None true; query (Some 1%N) true]) = [R2] ∧
  unused (finds matches rank
            (mark (with_stubs [R1; R2]) (query None false) 2%N)
            [query None true; query (Some 1%N) true]) = [R1].
Proof.
  destruct (internal_finds_leave_usage matches rank
              (mark (with_stubs [R1; R2]) (query None false) 2%N)
              [query None true; query (Some 1%N) true]) as (-> & -> & ->).
  - each_stub.
  - split_and!; run.
Defined.

Lemma used_unused_partition_witness :
  (∀ x, x ∈ all (find matches rank (with_stubs [R1; R2]) (query None false)).1 ↔
        x ∈ used (find matches rank (with_stubs [R1; R2]) (query None false)).1 ∨
        x ∈ unused (find matches rank (with_stubs [R1; R2]) (query None false)).1) ∧
  used (find matches rank (with_stubs [R1; R2]) (query None false)).1 = [R2] ∧
  unused (find matches rank (with_stubs [R1; R2]) (query None false)).1 = [R1].
Proof.
  split_and!; [|run|run].
  apply (used_unused_partition matches rank
           (find matches rank (with_stubs [R1; R2]) (query None false)).1).
  apply reachable_find, reachable_upsert, reachable_new.
Defined.

End Witnesses.

(** * Further properties of the searcher *)

(** ** The casts between stubs and values *)

Section Casts.
Context {Criteria Response : Type}.
Implicit Types (stubs : list (@Stub Criteria Response)).
Implicit Types (vs : list (@Value Criteria Response)).

(** X1: casting stubs to values and back gives the same stubs, in the same
    order: [upsert] loses nothing on the way into the index. *)
Theorem castToStub_castToValue stubs : castToStub (castToValue stubs) = stubs.
Proof.
  induction stubs as [|x stubs IH]; [done|].
  unfold castToStub, castToValue in *. cbn. by rewrite IH.
Qed.

(** X2: [castToStub] keeps exactly the values whose type assertion
    succeeds, in their order: cast back to values, its result is the input
    without the values that are no stubs. *)
Theorem castToValue_castToStub vs :
  castToValue (castToStub vs) = filter (λ v, is_stub v) vs.
Proof.
  induction vs as [|[x|k l r] vs IH]; [done|..].
  - rewrite filter_cons_True by done.
    change (castToStub (StubValue x :: vs)) with (x :: castToStub vs).
    change (castToValue (x :: castToStub vs))
      with (StubValue x :: castToValue (castToStub vs)).
    by rewrite IH.
  - rewrite filter_cons_False by (cbn; tauto).
    change (castToStub (OtherValue k l r :: vs)) with (castToStub vs).
    done.
Qed.

End Casts.

(** ** Errors of [search] *)

Lemma wrap_idempotent (e : error) : wrap (wrap e) = wrap e.
Proof. apply wrap_other, wrap_not_internal. Qed.

Section Outcomes.
Context {Criteria Response Input : Type}.
Variable match_ : @Query Input → @Stub Criteria Response → bool.
Variable rankMatch : @Query Input → @Stub Criteria Response → float.
Implicit Types (s t : @searcher Criteria Response).
Implicit Types (stub x c : @Stub Criteria Response).
Implicit Types (stubs : list (@Stub Criteria Response)).
Implicit Types (query : @Query Input) (out : result (@Result Criteria Response)).

(** X3: [search] wraps the error of [findBy], which [findBy] has wrapped
    already; the second translation changes nothing, so [find] without an
    identifier fails with exactly the error of [findBy] and leaves the
    state as it was. *)
Theorem find_propagates_findBy_error s query e :
  query_ID query = None →
  findBy s (query_Service query) (query_Method query) = Err e →
  find match_ rankMatch s query = (s, Err e).
Proof.
  intros Hid Hbucket. unfold find, search. rewrite Hid, Hbucket.
  unfold findBy in Hbucket. destruct (findAll _ _ _) as [vs|err]; [done|].
  injection Hbucket as <-. by rewrite wrap_idempotent.
Qed.

(** The three ways a call of [find] ends. *)
Lemma find_outcome s query :
  (∃ e, find match_ rankMatch s query = (s, Err e)) ∨
  (∃ x, find match_ rankMatch s query =
          (s, Ok {| found := None; similar := Some x |})) ∨
  (∃ x, find match_ rankMatch s query =
          (mark s query (default (ID x) (query_ID query)),
           Ok {| found := Some x; similar := None |})).
Proof.
  unfold find, searchByID, search.
  destruct (query_ID query) as [id|]; cbn [default from_option];
    repeat case_match; eauto.
Qed.

(** X4: what a call of [find] does to the searcher.  The index is never
    touched.  When the answer is a strict match and the query is not
    internal, the usage set afterwards is the one before plus one
    identifier: the one the query carries, or else the [ID] of the stub
    found.  When the answer is an error or a closest candidate, or the
    query is internal, the searcher is left as it was. *)
Theorem find_effect s query s' out :
  find match_ rankMatch s query = (s', out) →
  storage_of s' = storage_of s ∧
  (∀ r x, out = Ok r → found r = Some x →
          stubUsed s' =
            if RequestInternal query then stubUsed s
            else {[default (ID x) (query_ID query)]} ∪ stubUsed s) ∧
  ((∀ r x, out = Ok r → found r ≠ Some x) → s' = s) ∧
  (RequestInternal query = true → s' = s) ∧
  (s' = s ∨
   RequestInternal query = false ∧
   ∃ x, out = Ok {| found := Some x; similar := None |} ∧
        stubUsed s' = {[default (ID x) (query_ID query)]} ∪ stubUsed s).
Proof.
  intros Hfind.
  destruct (find_outcome s query) as [(e & H)|[(y & H)|(y & H)]];
    rewrite H in Hfind; injection Hfind as <- <-.
  - split_and!; [done|by intros r x [=]|done|done|by left].
  - split_and!; [done|by intros r x [= <-] [=]|done|done|by left].
  - split_and!.
    + apply mark_storage.
    + intros r x [= <-] [= <-]. apply mark_stubUsed.
    + intros Hnone. by destruct (Hnone _ y eq_refl).
    + apply mark_internal.
    + destruct (RequestInternal query) eqn:Hint.
      * left. by apply mark_internal.
      * right. split; [done|]. exists y. split; [done|].
        by rewrite mark_stubUsed, Hint.
Qed.

(** X5: a result of [find] holds exactly one stub: a strict match in
    [found] with [similar] nil, or a closest candidate in [similar] with
    [found] nil; never both, never neither. *)
Theorem find_result_exclusive s query s' r :
  find match_ rankMatch s query = (s', Ok r) →
  (is_Some (found r) ∧ similar r = None) ∨
  (found r = None ∧ is_Some (similar r)).
Proof.
  unfold find, searchByID, search.
  repeat case_match; intros [= _ <-]; cbn; eauto.
Qed.

(** X6: without an identifier, the strict match returned is a candidate of
    the bucket that matches, and among the matching candidates it is the
    first one with the highest score: no matching candidate scores higher,
    and every matching candidate before it scores strictly lower (or has a
    NaN score). *)
Theorem find_found_is_best_match s query stubs s' r x :
  query_ID query = None →
  findBy s (query_Service query) (query_Method query) = Ok stubs →
  find match_ rankMatch s query = (s', Ok r) →
  found r = Some x →
  first_best (match_ query) (rankMatch query) 0 stubs x ∧
  x ∈ stubs ∧ match_ query x = true ∧
  ∀ c, c ∈ stubs → match_ query c = true →
       (rankMatch query x <? rankMatch query c)%float = false.
Proof.
  intros Hid Hbucket. unfold find. rewrite Hid.
  destruct (search_cases match_ rankMatch s query stubs Hbucket)
    as [(y & Hy & ->)|[_ [(y & Hy & ->)|[_ ->]]]]; [| |done].
  - intros [= _ <-] [= <-]. split; [done|].
    apply first_best_highest in Hy as (? & ? & _ & ?). done.
  - by intros [= _ <-] [=].
Qed.

(** X7: without an identifier, a closest candidate is returned only when
    no matching candidate scores above 0; it is itself no strict match, it
    is the first candidate of the bucket with the highest score, and the
    searcher is left as it was. *)
Theorem find_similar_is_best_candidate s query stubs s' r x :
  query_ID query = None →
  findBy s (query_Service query) (query_Method query) = Ok stubs →
  find match_ rankMatch s query = (s', Ok r) →
  similar r = Some x →
  s' = s ∧ match_ query x = false ∧
  first_best (λ _, true) (rankMatch query) 0 stubs x ∧
  (∀ c, c ∈ stubs → (rankMatch query x <? rankMatch query c)%float = false) ∧
  (∀ c, c ∈ stubs → match_ query c = true →
        (0 <? rankMatch query c)%float = false).
Proof.
  intros Hid Hbucket. unfold find. rewrite Hid.
  destruct (search_cases match_ rankMatch s query stubs Hbucket)
    as [(y & Hy & ->)|[Hnone [(y & Hy & ->)|[_ ->]]]]; [| |done].
  - by intros [= _ <-] [=].
  - intros [= <- <-] [= <-].
    pose proof (first_best_highest _ _ _ _ _ Hy) as (Hin & _ & Hpos & Hmax).
    split_and!; [done| |done| |done].
    + destruct (match_ query y) eqn:Hm; [|done].
      rewrite (Hnone y Hin Hm) in Hpos. done.
    + intros c Hc. by apply Hmax.
Qed.

(** X8: without an identifier and with the bucket resolved, [find] fails
    with [ErrStubNotFound] exactly when no candidate of the bucket scores
    above 0 (an empty bucket included). *)
Theorem find_stub_not_found_iff s query stubs :
  query_ID query = None →
  findBy s (query_Service query) (query_Method query) = Ok stubs →
  (find match_ rankMatch s query).2 = Err ErrStubNotFound ↔
  ∀ c, c ∈ stubs → (0 <? rankMatch query c)%float = false.
Proof.
  intros Hid Hbucket. unfold find. rewrite Hid.
  destruct (search_cases match_ rankMatch s query stubs Hbucket)
    as [(y & Hy & ->)|[_ [(y & Hy & ->)|[Hzero ->]]]]; cbn.
  - apply first_best_highest in Hy as (Hin & _ & Hpos & _).
    split; [done|]. intros Hall. rewrite (Hall y Hin) in Hpos. done.
  - apply first_best_highest in Hy as (Hin & _ & Hpos & _).
    split; [done|]. intros Hall. rewrite (Hall y Hin) in Hpos. done.
  - done.
Qed.

(** X9: without an identifier, every stub that [find] returns, as strict
    match or as closest candidate, scores above 0: a candidate whose score
    is NaN or negative is never returned. *)
Theorem find_returns_positive_scores s query s' r x :
  query_ID query = None →
  find match_ rankMatch s query = (s', Ok r) →
  found r = Some x ∨ similar r = Some x →
  (0 <? rankMatch query x)%float = true ∧
  (rankMatch query x =? rankMatch query x)%float = true ∧
  (rankMatch query x <? 0)%float = false.
Proof.
  intros Hid Hfind Hx.
  assert (Hpos : (0 <? rankMatch query x)%float = true).
  { revert Hfind Hx. unfold find. rewrite Hid.
    destruct (findBy s (query_Service query) (query_Method query))
      as [stubs|e] eqn:Hbucket.
    - destruct (search_cases match_ rankMatch s query stubs Hbucket)
        as [(y & Hy & ->)|[_ [(y & Hy & ->)|[_ ->]]]]; [| |done].
      all: apply first_best_highest in Hy as (_ & _ & Hpos & _).
      all: by intros [= _ <-] [[= <-]|[= <-]].
    - unfold search. rewrite Hbucket. done. }
  split_and!; [done|by apply ltb_not_nan with 0%float|by apply ltb_asym].
Qed.

End Outcomes.

(** ** Marking *)

Section Marks.
Context {Criteria Response Input : Type}.
Implicit Types (s t : @searcher Criteria Response).
Implicit Types (stub x c : @Stub Criteria Response).
Implicit Types (query : @Query Input) (id : uuid).

(** X13: [mark] is an idempotent insertion and the order of two marks does
    not matter. *)
Theorem mark_idempotent_commutative s query id id' :
  mark (mark s query id) query id = mark s query id ∧
  mark (mark s query id) query id' = mark (mark s query id') query id.
Proof.
  unfold mark. destruct (RequestInternal query); [done|]. cbn. split; f_equal.
  - by rewrite (assoc_L (∪)), (idemp_L (∪)).
  - by rewrite !(assoc_L (∪)), (comm_L (∪) {[id']}).
Qed.

(** X14: marking an identifier for a query that is not internal takes the
    stubs with that [ID] out of [unused()], keeping the others in their
    order, and adds to [used()] the stub stored under it, if any; [all()]
    is not changed.  For an internal query all three stay as they were. *)
Theorem mark_moves_stub s query id :
  all (mark s query id) = all s ∧
  (RequestInternal query = true →
   used (mark s query id) = used s ∧ unused (mark s query id) = unused s) ∧
  (RequestInternal query = false →
   unused (mark s query id) = filter (λ stub, ID stub ≠ id) (unused s) ∧
   ∀ x, x ∈ used (mark s query id) ↔ x ∈ used s ∨ findByID s id = Some x).
Proof.
  split_and!.
  - unfold all. by rewrite mark_storage.
  - intros Hint. by rewrite mark_internal.
  - intros Hext. unfold mark. rewrite Hext. split.
    + unfold unused, all. cbn. rewrite list_filter_filter.
      apply list_filter_iff. intros x.
      rewrite not_elem_of_union, not_elem_of_singleton. tauto.
    + intros x. rewrite !elem_of_used, findByID_Some. cbn. split.
      * intros (k & [->%elem_of_singleton|Hk]%elem_of_union & Hx); eauto.
      * intros [(k & Hk & Hx)|Hx].
        -- exists k. split; [|done]. apply elem_of_union. by right.
        -- exists id. split; [|done]. apply elem_of_union. left.
           by apply elem_of_singleton.
Qed.

(** [upsert] and [del] work on the index alone. *)
Lemma upsert_stubUsed s (vs : list (@Stub Criteria Response)) :
  stubUsed (upsert s vs).1 = stubUsed s.
Proof.
  unfold upsert. by destruct (storage_upsert (storage_of s) (castToValue vs)).
Qed.

Lemma del_stubUsed s (ids : list uuid) : stubUsed (del s ids).1 = stubUsed s.
Proof. unfold del. by destruct (storage_del (storage_of s) ids). Qed.

End Marks.

(** ** Resolution and the usage set *)

Section Usage.
Context {Criteria Response Input : Type}.
Implicit Types (s t : @searcher Criteria Response).
Implicit Types (stub x c : @Stub Criteria Response).
Implicit Types (query : @Query Input) (id : uuid).
Variable match_ : @Query Input → @Stub Criteria Response → bool.
Variable rankMatch : @Query Input → @Stub Criteria Response → float.

(** X10: a query that carries an identifier never reaches the matcher or
    the ranker: [find] gives the same answer whatever they are, and a
    result it returns holds in [found] the stub [findByID] gives for the
    identifier and nothing in [similar]. *)
Theorem find_by_identifier_ignores_matcher
    (other_match : @Query Input → @Stub Criteria Response → bool)
    (other_rank : @Query Input → @Stub Criteria Response → float)
    s query id :
  query_ID query = Some id →
  find match_ rankMatch s query = find other_match other_rank s query ∧
  ∀ s' r, find match_ rankMatch s query = (s', Ok r) →
          is_Some (found r) ∧ found r = findByID s id ∧ similar r = None.
Proof.
  intros Hid. unfold find. rewrite Hid. split; [done|].
  intros s' r. unfold searchByID.
  destruct (posByN _ _ _) as [bucket|e]; [|done].
  destruct (findByID s id) as [x|]; [|done].
  intros [= _ <-]. cbn. eauto.
Qed.

(** The answer of [find] and the identifier it marks depend on the index
    alone. *)
Lemma find_shape (st : @storage Criteria Response) query :
  ∃ out (marked : option uuid), ∀ U,
    find match_ rankMatch {| stubUsed := U; storage_of := st |} query =
      ({| stubUsed := match marked with
                      | Some id => {[id]} ∪ U
                      | None => U
                      end;
          storage_of := st |}, out).
Proof.
  unfold find, searchByID, search, findBy, findByID, mark. cbn.
  repeat case_match;
    first [ eexists _, None; intros U; reflexivity
          | eexists _, (Some _); intros U; reflexivity ].
Qed.

(** X11: the usage set has no part in the resolution: two searchers over
    the same index give the same answer to the same query, so a stub that
    was used before is found again like any other. *)
Theorem find_ignores_usage s t query :
  storage_of s = storage_of t →
  (find match_ rankMatch s query).2 = (find match_ rankMatch t query).2.
Proof.
  destruct s as [U st], t as [V st']. cbn. intros <-.
  destruct (find_shape st query) as (out & marked & Hfind).
  by rewrite !Hfind.
Qed.

(** X12: asking the same query again changes nothing more: the second
    [find] gives the answer of the first and leaves the searcher as the
    first left it. *)
Theorem find_idempotent s query :
  find match_ rankMatch (find match_ rankMatch s query).1 query =
  find match_ rankMatch s query.
Proof.
  destruct s as [U st].
  destruct (find_shape st query) as (out & marked & Hfind).
  rewrite (Hfind U). cbn [fst]. rewrite Hfind.
  destruct marked as [id|]; [|done].
  by rewrite (assoc_L (∪)), (idemp_L (∪)).
Qed.

(** X15: only [clear] takes identifiers out of the usage set: over any run
    of [upsert], [del] and [find] calls the usage set only grows, whatever
    happens to the stubs in the index. *)
Theorem usage_only_grows s (calls : list call) :
  CallClear ∉ calls →
  stubUsed s ⊆ stubUsed (run match_ rankMatch s calls).
Proof.
  revert s. induction calls as [|c calls IH]; intros s Hclear; [done|].
  apply not_elem_of_cons in Hclear as [Hc Hclear].
  unfold run in *. cbn [foldl].
  etrans; [|by apply IH].
  destruct c as [vs|ids|query|]; cbn [step]; [| | |done].
  - by rewrite upsert_stubUsed.
  - by rewrite del_stubUsed.
  - destruct (find_state match_ rankMatch s query) as [->|[id ->]]; [done|].
    rewrite mark_stubUsed. destruct (RequestInternal query); [done|].
    apply union_subseteq_r.
Qed.

(** X16: [clear] brings the searcher back to the state of [newSearcher]:
    [all()], [used()] and [unused()] are empty, and every query, with or
    without an identifier, fails with [ErrServiceNotFound]. *)
Theorem clear_resets s query :
  clear s = newSearcher ∧
  all (clear s) = [] ∧ used (clear s) = [] ∧ unused (clear s) = [] ∧
  find match_ rankMatch (clear s) query = (clear s, Err ErrServiceNotFound).
Proof.
  split_and!; try done.
  unfold find, searchByID, search, findBy, findAll, posByN. cbn.
  rewrite lookup_empty. by destruct (query_ID query).
Qed.

(** The index holds stubs only. *)
Lemma castToValue_castToStub_stubs (vs : list (@Value Criteria Response)) :
  (∀ v, v ∈ vs → is_stub v = true) → castToValue (castToStub vs) = vs.
Proof.
  induction vs as [|[x|k l r] vs IH]; intros Hvs; [done|..].
  - change (castToValue (castToStub (StubValue x :: vs)))
      with (StubValue x :: castToValue (castToStub vs)).
    f_equal. apply IH. intros v Hv. apply Hvs. by right.
  - by pose proof (Hvs (OtherValue k l r) ltac:(by left)).
Qed.

Lemma only_stubs_upsert (st : @storage Criteria Response) stubs :
  (∀ id v, itemsByID st !! id = Some v → is_stub v = true) →
  ∀ id v, itemsByID (storage_upsert st (castToValue stubs)).1 !! id = Some v →
          is_stub v = true.
Proof.
  cbn. revert st. induction stubs as [|x stubs IH]; intros st Hst; [done|].
  cbn. apply IH. intros id v. cbn. rewrite lookup_insert.
  case_decide; [by intros [= <-]|apply Hst].
Qed.

Lemma only_stubs_del (st : @storage Criteria Response) ids :
  (∀ id v, itemsByID st !! id = Some v → is_stub v = true) →
  ∀ id v, itemsByID (storage_del st ids).1 !! id = Some v → is_stub v = true.
Proof.
  unfold storage_del. generalize 0. revert st.
  induction ids as [|k ids IH]; intros st n Hst; [done|].
  cbn [foldl fst snd].
  assert (Hst' : ∀ id v, itemsByID (del1 st k).1 !! id = Some v →
                         is_stub v = true).
  { unfold del1. destruct (itemsByID st !! k) as [old|]; [|done].
    intros id v. cbn. rewrite lookup_delete. case_decide; [done|apply Hst]. }
  destruct (del1 st k) as [st' removed]. by apply IH.
Qed.

(** X17: whatever was done to a searcher through its methods, its index
    holds stubs only, so the type assertions never fail: [all()] lists
    every value of the index, and [findByID] gives nil only for an
    identifier the index does not have. *)
Theorem casts_never_drop s :
  reachable match_ rankMatch s →
  castToValue (all s) = values (storage_of s) ∧
  length (all s) = length (values (storage_of s)) ∧
  ∀ id, findByID s id = None ↔ storage_findByID (storage_of s) id = None.
Proof.
  intros Hreach.
  assert (Hstubs : ∀ id v, itemsByID (storage_of s) !! id = Some v →
                           is_stub v = true).
  { induction Hreach as [|s vs _ IH|s ids _ IH|s _ IH|s query _ IH].
    - intros id v. cbn. by rewrite lookup_empty.
    - unfold upsert.
      pose proof (only_stubs_upsert (storage_of s) vs IH) as Hup.
      by destruct (storage_upsert _ _).
    - unfold del. pose proof (only_stubs_del (storage_of s) ids IH) as Hdel.
      by destruct (storage_del _ _).
    - intros id v. cbn. by rewrite lookup_empty.
    - by rewrite find_storage. }
  assert (Hall : castToValue (all s) = values (storage_of s)).
  { unfold all. apply castToValue_castToStub_stubs.
    intros v (id & Hv)%elem_of_values. by apply (Hstubs id). }
  split_and!; [done| |].
  - rewrite <- Hall. unfold castToValue. by rewrite length_fmap.
  - intros id. unfold findByID, storage_findByID.
    destruct (itemsByID (storage_of s) !! id) as [[x|k l r]|] eqn:Hv; [done| |done].
    by pose proof (Hstubs id _ Hv).
Qed.

End Usage.

(** * The further properties on concrete stubs *)

Section MoreWitnesses.
Import Demo.

Ltac run := vm_compute; reflexivity.

Ltac each_stub :=
  let c := fresh "c" in
  let Hc := fresh "Hc" in
  intros c Hc;
  repeat (apply elem_of_cons in Hc as [->|Hc]);
  [try split; run ..|by apply elem_of_nil in Hc].

Lemma find_propagates_findBy_error_witness :
  findBy (with_stubs [R1]) "svc" "nope" = Err ErrMethodNotFound ∧
  find matches rank (with_stubs [R1]) (mkQuery None "svc" "nope" () false) =
    (with_stubs [R1], Err ErrMethodNotFound).
Proof.
  split; [run|].
  apply (find_propagates_findBy_error matches rank
           (with_stubs [R1]) (mkQuery None "svc" "nope" () false)); run.
Defined.

(** A strict match for a query that is not internal adds its identifier;
    for an internal query it adds nothing. *)
Lemma find_effect_witness :
  stubUsed (mark (with_stubs [R1; R2]) (query None false) 2%N) =
    {[2%N]} ∪ stubUsed (with_stubs [R1; R2]) ∧
  stubUsed (mark (with_stubs [R1; R2]) (query (Some 1%N) false) 1%N) =
    {[1%N]} ∪ stubUsed (with_stubs [R1; R2]) ∧
  (find matches rank (with_stubs [R1; R2]) (query None true)).1 =
    with_stubs [R1; R2] ∧
  (find matches rank (with_stubs [R4; R1]) (query None false)).1 =
    with_stubs [R4; R1].
Proof.
  split_and!.
  - destruct (find_effect matches rank (with_stubs [R1; R2]) (query None false)
                (mark (with_stubs [R1; R2]) (query None false) 2%N)
                (Ok {| found := Some R2; similar := None |}))
      as (_ & Hadd & _); [run|].
    exact (Hadd _ R2 eq_refl eq_refl).
  - destruct (find_effect matches rank
                (with_stubs [R1; R2]) (query (Some 1%N) false)
                (mark (with_stubs [R1; R2]) (query (Some 1%N) false) 1%N)
                (Ok {| found := Some R1; similar := None |}))
      as (_ & Hadd & _); [run|].
    exact (Hadd _ R1 eq_refl eq_refl).
  - destruct (find_effect matches rank (with_stubs [R1; R2]) (query None true)
                (find matches rank (with_stubs [R1; R2]) (query None true)).1
                (find matches rank (with_stubs [R1; R2]) (query None true)).2)
      as (_ & _ & _ & Hint & _); [apply surjective_pairing|].
    exact (Hint eq_refl).
  - destruct (find_effect matches rank (with_stubs [R4; R1]) (query None false)
                (find matches rank (with_stubs [R4; R1]) (query None false)).1
                (Ok {| found := None; similar := Some R1 |}))
      as (_ & _ & Hnone & _); [run|].
    apply Hnone. by intros r x [= <-].
Defined.

Lemma find_result_exclusive_witness :
  (is_Some (found {| found := None; similar := Some R1 |}) ∧
   similar {| found := None; similar := Some R1 |} = None) ∨
  (found {| found := None; similar := Some R1 |} = None ∧
   is_Some (similar {| found := None; similar := Some R1 |})).
Proof.
  apply (find_result_exclusive matches rank
           (with_stubs [R4; R1; R3]) (query None false)
           (with_stubs [R4; R1; R3])).
  run.
Defined.

(** R6 is returned although R2 comes first, R2 although R5 ties with it. *)
Lemma find_found_is_best_match_witness :
  (first_best (matches (query None false)) (rank (query None false)) 0
     [R2; R1; R6; R5] R6 ∧
   R6 ∈ [R2; R1; R6; R5] ∧ matches (query None false) R6 = true ∧
   ∀ c, c ∈ [R2; R1; R6; R5] → matches (query None false) c = true →
        (rank (query None false) R6 <? rank (query None false) c)%float = false) ∧
  find matches rank (with_stubs [R2; R5]) (query None false) =
    (mark (with_stubs [R2; R5]) (query None false) 2%N,
     Ok {| found := Some R2; similar := None |}).
Proof.
  split; [|run].
  apply (find_found_is_best_match matches rank
           (with_stubs [R2; R1; R6; R5]) (query None false) [R2; R1; R6; R5]
           (mark (with_stubs [R2; R1; R6; R5]) (query None false) 11%N)
           {| found := Some R6; similar := None |} R6); run.
Defined.

(** Z1 matches with score 0, so the closest candidate R1 is returned. *)
Lemma find_similar_is_best_candidate_witness :
  with_stubs [R4; Z1; R1; R3] = with_stubs [R4; Z1; R1; R3] ∧
  matches (query None false) R1 = false ∧
  first_best (λ _, true) (rank (query None false)) 0 [R4; Z1; R1; R3] R1 ∧
  (∀ c, c ∈ [R4; Z1; R1; R3] →
        (rank (query None false) R1 <? rank (query None false) c)%float = false) ∧
  (∀ c, c ∈ [R4; Z1; R1; R3] → matches (query None false) c = true →
        (0 <? rank (query None false) c)%float = false).
Proof.
  apply (find_similar_is_best_candidate matches rank
           (with_stubs [R4; Z1; R1; R3]) (query None false) [R4; Z1; R1; R3]
           (with_stubs [R4; Z1; R1; R3])
           {| found := None; similar := Some R1 |} R1); run.
Defined.

(** Scores 0, NaN and -0.5: nothing is found. *)
Lemma find_stub_not_found_iff_witness :
  (find matches rank (with_stubs [Z2; N1; M1]) (query None false)).2 =
    Err ErrStubNotFound.
Proof.
  apply (find_stub_not_found_iff matches rank
           (with_stubs [Z2; N1; M1]) (query None false) [Z2; N1; M1]);
    [run|run|each_stub].
Defined.

Lemma find_returns_positive_scores_witness :
  find matches rank (with_stubs [N1; M1; R4]) (query None false) =
    (with_stubs [N1; M1; R4], Ok {| found := None; similar := Some R4 |}) ∧
  (0 <? rank (query None false) R4)%float = true ∧
  (rank (query None false) R4 =? rank (query None false) R4)%float = true ∧
  (rank (query None false) R4 <? 0)%float = false.
Proof.
  split; [run|].
  apply (find_returns_positive_scores matches rank
           (with_stubs [N1; M1; R4]) (query None false)
           (with_stubs [N1; M1; R4])
           {| found := None; similar := Some R4 |} R4);
    [run|run|by right].
Defined.

(** R1 does not match the query and is found by its identifier. *)
Lemma find_by_identifier_ignores_matcher_witness :
  matches (query (Some 1%N) false) R1 = false ∧
  find matches rank (with_stubs [R1; R2]) (query (Some 1%N) false) =
    find (λ _ _, true) (λ _ _, 1%float)
      (with_stubs [R1; R2]) (query (Some 1%N) false) ∧
  found {| found := Some R1; similar := @None (@Stub (bool * float) unit) |} =
    findByID (with_stubs [R1; R2]) 1%N.
Proof.
  split; [run|].
  destruct (find_by_identifier_ignores_matcher matches rank
              (λ _ _, true) (λ _ _, 1%float)
              (with_stubs [R1; R2]) (query (Some 1%N) false) 1%N eq_refl)
    as [Hsame Hfound].
  split; [exact Hsame|].
  apply (Hfound (mark (with_stubs [R1; R2]) (query (Some 1%N) false) 1%N)).
  run.
Defined.

Lemma find_ignores_usage_witness :
  (find matches rank (with_stubs [R1; R2]) (query None false)).2 =
  (find matches rank
     (mark (with_stubs [R1; R2]) (query None false) 2%N)
     (query None false)).2.
Proof.
  apply (find_ignores_usage matches rank). run.
Defined.

(** The stub found is deleted and another one upserted: its identifier
    stays in the usage set. *)
Lemma usage_only_grows_witness :
  stubUsed (mark (with_stubs [R1; R2]) (query None false) 2%N) ⊆
  stubUsed (run matches rank
              (mark (with_stubs [R1; R2]) (query None false) 2%N)
              [CallDel [2%N]; CallUpsert [R4]; CallFind (query (Some 1%N) false);
               CallFind (query None true)]).
Proof.
  apply (usage_only_grows matches rank).
  intros H.
  repeat (apply elem_of_cons in H as [H|H]; [discriminate H|]).
  by apply elem_of_nil in H.
Defined.

Lemma casts_never_drop_witness :
  castToValue (all (run matches rank newSearcher
                      [CallUpsert [R1; R2; E1]; CallDel [1%N];
                       CallFind (query None false)])) =
    values (storage_of (run matches rank newSearcher
                          [CallUpsert [R1; R2; E1]; CallDel [1%N];
                           CallFind (query None false)])) ∧
  all (run matches rank newSearcher
         [CallUpsert [R1; R2; E1]; CallDel [1%N];
          CallFind (query None false)]) = [R2; E1].
Proof.
  split; [|run].
  apply (casts_never_drop matches rank).
  apply reachable_find, reachable_del, reachable_upsert, reachable_new.
Defined.

End MoreWitnesses.
